(** * Payment_Wall: the composition root [src/App.tsx]

    A shallow embedding of the application root of the single-page
    application: the module-level [queryClient], the function component
    [ConditionalCameraPreview], and the element tree returned by [App].

    Conventions.
    - A JavaScript string is a [string], a sequence of code units; [===] on
      two strings is equality of the two sequences, [strict_eq].
    - [null] returned by a component is [None].
    - A component is a computation in the monad [M]: it reads and may change
      the [World] (the heap of constructed objects and the browser's current
      location), and it may throw.
    - React's contexts are the [Ctx] handed down the tree while rendering.
    - The imported components are opaque: a render records which of them it
      mounts and under which providers.
    - react-router's path matching is a parameter of the renderer; the
      dispatch of [Routes] over a table follows the specification. *)

From Stdlib Require Import String Ascii List Bool Arith Permutation.
Import ListNotations.
Open Scope string_scope.
Open Scope list_scope.

Set Warnings "-register-all".

(** ** Strings *)

Module JS.

(** [a === b] on strings. *)
Definition strict_eq (a b : string) : bool := String.eqb a b.

End JS.

Infix "===" := JS.strict_eq (at level 70, no associativity).

(** ** The world a render runs in *)

(** The router's [Location] object.  [state] is opaque to this unit. *)
Record Location : Type := mkLocation {
  pathname : string;
  search : string;
  hash : string;
  state : option string;
  key : string
}.

(** Objects constructed with [new]; a reference is the index in the heap. *)
Inductive Obj : Type :=
| QueryClientObj.

Definition ObjRef : Type := nat.

Record World : Type := mkWorld {
  heap : list Obj;
  window_location : Location
}.

(** What a render can throw: a failed invariant of react-router, or, in
    this model only, the end of the fuel. *)
Inductive Error : Type :=
| InvariantError (message : string)
| OutOfFuel.

Inductive Result (A : Type) : Type :=
| Ok (a : A)
| Throw (e : Error).
Arguments Ok {A} a.
Arguments Throw {A} e.

(** State and exceptions: a thrown error keeps the world reached so far. *)
Definition M (A : Type) : Type := World -> Result A * World.

Definition ret {A} (a : A) : M A := fun w => (Ok a, w).

Definition throw {A} (e : Error) : M A := fun w => (Throw e, w).

Definition bind {A B} (c : M A) (k : A -> M B) : M B :=
  fun w =>
    match c w with
    | (Ok a, w') => k a w'
    | (Throw e, w') => (Throw e, w')
    end.

Notation "x <- c ;; k" := (bind c (fun x => k))
  (at level 61, c at next level, right associativity).

(** [new QueryClient()]: a fresh object at the end of the heap. *)
Definition new_QueryClient : M ObjRef :=
  fun w =>
    (Ok (length (heap w)),
     {| heap := heap w ++ [QueryClientObj];
        window_location := window_location w |}).

(** A navigation event: the browser's location changes, nothing else. *)
Definition navigate (to : Location) (w : World) : World :=
  {| heap := heap w; window_location := to |}.

(** ** Elements *)

(** The imported components this unit mounts by name only. *)
Inductive Component : Type :=
| Toaster | Sonner
| Index | Login | Questionnaire | DocumentUpload | LoanStatus | NotFound
| CameraPreview.

(** The imported components that take children and provide a context. *)
Inductive Provider : Type :=
| QueryClientProvider (client : ObjRef)
| TooltipProvider
| BrowserRouter
| AuthProvider
| LoanProvider.

(** The function components defined in [App.tsx] itself. *)
Inductive LocalComponent : Type :=
| ConditionalCameraPreviewC.

Inductive Element : Type :=
| Leaf (c : Component)
| Wrap (p : Provider) (children : list Element)
| Routes (children : list RouteT)
| Local (f : LocalComponent)
with RouteT : Type :=
| Route (path : string) (element : Element).

(** ** Contexts *)

Record Ctx : Type := mkCtx {
  providers : list Provider;          (* enclosing providers, outermost first *)
  router_location : option Location   (* set by an enclosing router *)
}.

Definition root_ctx : Ctx := {| providers := []; router_location := None |}.

(** [useLocation()]: the enclosing router's location; react-router's
    invariant fails outside a router. *)
Definition useLocation (ctx : Ctx) : M Location :=
  match router_location ctx with
  | Some location => ret location
  | None =>
      throw (InvariantError
        "useLocation() may be used only in the context of a <Router> component.")
  end.

(** ** [App.tsx] *)

(** Lines 20-34. *)
Definition ConditionalCameraPreview (ctx : Ctx) : M (option Element) :=
  location <- useLocation ctx ;;
  if (pathname location === "/document-upload")
     || (pathname location === "/")
     || (pathname location === "/loan-status")
  then ret None
  else ret (Some (Leaf CameraPreview)).

(** Lines 36-59; [queryClient] is the module-level constant of line 17. *)
Definition App (queryClient : ObjRef) : Element :=
  Wrap (QueryClientProvider queryClient)
    [Wrap TooltipProvider
       [Leaf Toaster;
        Leaf Sonner;
        Wrap BrowserRouter
          [Wrap AuthProvider
             [Wrap LoanProvider
                [Routes
                   [Route "/" (Leaf Index);
                    Route "/login" (Leaf Login);
                    Route "/questionnaire" (Leaf Questionnaire);
                    Route "/document-upload" (Leaf DocumentUpload);
                    Route "/loan-status" (Leaf LoanStatus);
                    Route "*" (Leaf NotFound)];
                 Local ConditionalCameraPreviewC]]]]].

(** Evaluating the module: line 17 runs once, then [App] is exported. *)
Record ModuleEnv : Type := mkModuleEnv {
  queryClient : ObjRef
}.

Definition module_eval : M ModuleEnv :=
  qc <- new_QueryClient ;;
  ret {| queryClient := qc |}.

(** ** Rendering *)

(** What a render leaves mounted: an imported component, and the providers
    it sits inside, outermost first. *)
Record Mounted : Type := mkMounted {
  component : Component;
  under : list Provider
}.

Definition mount (c : Component) (ctx : Ctx) : Mounted :=
  {| component := c; under := providers ctx |}.

(** Rendering a provider's children happens in the context it provides.
    [BrowserRouter] reads the browser's location; react-router's invariant
    refuses a router inside a router. *)
Definition enter (p : Provider) (ctx : Ctx) : M Ctx :=
  match p with
  | BrowserRouter =>
      match router_location ctx with
      | Some _ =>
          throw (InvariantError
            "You cannot render a <Router> inside another <Router>.")
      | None =>
          fun w =>
            (Ok {| providers := providers ctx ++ [p];
                   router_location := Some (window_location w) |}, w)
      end
  | _ =>
      ret {| providers := providers ctx ++ [p];
             router_location := router_location ctx |}
  end.

(** The body of each function component of this module. *)
Definition body (f : LocalComponent) : Ctx -> M (option Element) :=
  match f with
  | ConditionalCameraPreviewC => ConditionalCameraPreview
  end.

Section Rendering.

(** react-router's path matching is not part of this repository: it is a
    parameter, [matchPath pattern pathname]. *)
Variable matchPath : string -> string -> bool.

(** Modelled from the spec: the dispatch of [Routes] (react-router-dom,
    not under src/): the table is evaluated in declaration order and the
    first entry whose pattern matches wins; with no match nothing is
    rendered. *)
Fixpoint select_route (table : list RouteT) (path : string) : option Element :=
  match table with
  | [] => None
  | Route pattern element :: rest =>
      if matchPath pattern path then Some element else select_route rest path
  end.

(** [render fuel ctx e]: the components left mounted by rendering [e].
    [fuel] bounds how deep function components may expand into function
    components. *)
Fixpoint render (fuel : nat) : Ctx -> Element -> M (list Mounted) :=
  fix go (ctx : Ctx) (e : Element) {struct e} : M (list Mounted) :=
    match e with
    | Leaf c => ret [mount c ctx]
    | Wrap p children =>
        ctx' <- enter p ctx ;;
        (fix each (es : list Element) : M (list Mounted) :=
           match es with
           | [] => ret []
           | e' :: es' =>
               ms <- go ctx' e' ;;
               ms' <- each es' ;;
               ret (ms ++ ms')
           end) children
    | Routes table =>
        location <- useLocation ctx ;;
        (fix pick (rs : list RouteT) : M (list Mounted) :=
           match rs with
           | [] => ret []
           | Route pattern element :: rest =>
               if matchPath pattern (pathname location)
               then go ctx element
               else pick rest
           end) table
    | Local f =>
        match fuel with
        | O => throw OutOfFuel
        | S fuel' =>
            r <- body f ctx ;;
            match r with
            | None => ret []
            | Some e' => render fuel' ctx e'
            end
        end
    end.

(** The children of a provider, rendered left to right. *)
Fixpoint render_children (fuel : nat) (ctx : Ctx) (es : list Element)
  : M (list Mounted) :=
  match es with
  | [] => ret []
  | e :: es' =>
      ms <- render fuel ctx e ;;
      ms' <- render_children fuel ctx es' ;;
      ret (ms ++ ms')
  end.

End Rendering.

(** Induction on elements, through the lists of children and of routes. *)
Section ElementInduction.

Variable P : Element -> Prop.
Hypothesis P_Leaf : forall c, P (Leaf c).
Hypothesis P_Wrap : forall p children, Forall P children -> P (Wrap p children).
Hypothesis P_Routes :
  forall table,
    Forall (fun r => match r with Route _ element => P element end) table ->
    P (Routes table).
Hypothesis P_Local : forall f, P (Local f).

Fixpoint Element_nested_ind (e : Element) : P e :=
  match e with
  | Leaf c => P_Leaf c
  | Wrap p children =>
      P_Wrap p children
        ((fix all (es : list Element) : Forall P es :=
            match es with
            | [] => Forall_nil P
            | e' :: es' => Forall_cons e' (Element_nested_ind e') (all es')
            end) children)
  | Routes table =>
      P_Routes table
        ((fix all (rs : list RouteT)
            : Forall (fun r => match r with Route _ element => P element end) rs :=
            match rs with
            | [] => Forall_nil _
            | r :: rs' =>
                Forall_cons r
                  (match r return match r with Route _ element => P element end with
                   | Route _ element => Element_nested_ind element
                   end)
                  (all rs')
            end) table)
  | Local f => P_Local f
  end.

End ElementInduction.

(** ** The application instance *)

Section Application.

Variable matchPath : string -> string -> bool.

(** One render pass of the root, as React runs it: [App()] returns the
    element tree, which is rendered from the empty context. *)
Definition render_App (fuel : nat) (env : ModuleEnv) : M (list Mounted) :=
  render matchPath fuel root_ctx (App (queryClient env)).

(** The root re-renders after each navigation of [navs]. *)
Fixpoint rerender (fuel : nat) (env : ModuleEnv) (navs : list Location)
  : M (list (list Mounted)) :=
  match navs with
  | [] => ret []
  | to :: rest =>
      fun w =>
        (ms <- render_App fuel env ;;
         mss <- rerender fuel env rest ;;
         ret (ms :: mss)) (navigate to w)
  end.

(** A running application: the module is evaluated, the root is rendered,
    and it is rendered again after every navigation. *)
Definition run_app (fuel : nat) (navs : list Location)
  : M (list (list Mounted)) :=
  env <- module_eval ;;
  ms <- render_App fuel env ;;
  mss <- rerender fuel env navs ;;
  ret (ms :: mss).

End Application.

(** ** Vocabulary of the specification *)

(** The overlay decision. *)
Definition hidden : option Element := None.
Definition shown : option Element := Some (Leaf CameraPreview).

(** The exclusion set of the overlay selector. *)
Definition exclusion_set : list string :=
  ["/document-upload"; "/"; "/loan-status"].

(** The route table of [App], lines 45-51. *)
Definition route_table : list RouteT :=
  [Route "/" (Leaf Index);
   Route "/login" (Leaf Login);
   Route "/questionnaire" (Leaf Questionnaire);
   Route "/document-upload" (Leaf DocumentUpload);
   Route "/loan-status" (Leaf LoanStatus);
   Route "*" (Leaf NotFound)].

Definition route_path (r : RouteT) : string :=
  match r with Route path _ => path end.

Definition route_element (r : RouteT) : Element :=
  match r with Route _ element => element end.

(** The five static literal paths, and the pages of the table. *)
Definition static_paths : list string :=
  ["/"; "/login"; "/questionnaire"; "/document-upload"; "/loan-status"].

Definition pages : list Component :=
  [Index; Login; Questionnaire; DocumentUpload; LoanStatus; NotFound].

Definition Component_eqb (a b : Component) : bool :=
  match a, b with
  | Toaster, Toaster | Sonner, Sonner | Index, Index | Login, Login
  | Questionnaire, Questionnaire | DocumentUpload, DocumentUpload
  | LoanStatus, LoanStatus | NotFound, NotFound
  | CameraPreview, CameraPreview => true
  | _, _ => false
  end.

Definition is_page (m : Mounted) : bool :=
  existsb (Component_eqb (component m)) pages.

Definition is_overlay (m : Mounted) : bool :=
  Component_eqb (component m) CameraPreview.

(** The provider stack, outermost first. *)
Definition provider_stack (client : ObjRef) : list Provider :=
  [QueryClientProvider client; TooltipProvider; BrowserRouter;
   AuthProvider; LoanProvider].

(** A router context: the providers entered so far and the location. *)
Definition in_router (outer : list Provider) (location : Location) : Ctx :=
  {| providers := outer; router_location := Some location |}.

(** The nodes of an element tree that are not providers, each with the
    providers around it, outermost first.  The elements of a route table
    are behind the table's own node. *)
Fixpoint sites (outer : list Provider) (e : Element)
  : list (Element * list Provider) :=
  match e with
  | Wrap p children =>
      (fix each (es : list Element) : list (Element * list Provider) :=
         match es with
         | [] => []
         | e' :: es' => sites (outer ++ [p]) e' ++ each es'
         end) children
  | _ => [(e, outer)]
  end.

(** Letter case and trailing slashes. *)
Definition ascii_lower (c : ascii) : ascii :=
  let n := nat_of_ascii c in
  if ((65 <=? n) && (n <=? 90))%nat then ascii_of_nat (n + 32) else c.

Fixpoint lower (s : string) : string :=
  match s with
  | EmptyString => EmptyString
  | String c s' => String (ascii_lower c) (lower s')
  end.

(** [s] without its trailing slashes. *)
Fixpoint strip_slashes (s : string) : string :=
  match s with
  | EmptyString => EmptyString
  | String c s' =>
      match strip_slashes s' with
      | EmptyString => if Ascii.eqb c "/" then EmptyString else String c EmptyString
      | r => String c r
      end
  end.

Definition canonical (s : string) : string := strip_slashes (lower s).

(** Two paths that differ at most by trailing slashes and letter case. *)
Inductive slash_case_variant : string -> string -> Prop :=
| variant_add_slash (s : string) : slash_case_variant s (s ++ "/")
| variant_drop_slash (s : string) : slash_case_variant (s ++ "/") s
| variant_case (s t : string) : lower s = lower t -> slash_case_variant s t
| variant_trans (s t u : string) :
    slash_case_variant s t -> slash_case_variant t u -> slash_case_variant s u.

(** Two matchers that meet what the theorems below ask of react-router:
    the strict one compares whole paths, the lenient one ignores letter
    case and trailing slashes. *)
Definition strict_matchPath (pattern path : string) : bool :=
  (pattern === "*") || (pattern === path).

Definition lenient_matchPath (pattern path : string) : bool :=
  (pattern === "*") || (canonical pattern === canonical path).

(** What one render of the root leaves mounted when the browser is at
    [path]: the two toasters, the page of the route table, the overlay. *)
Definition page_for (matchPath : string -> string -> bool) (path : string)
  : list Component :=
  match select_route matchPath route_table path with
  | Some (Leaf c) => [c]
  | _ => []
  end.

Definition overlay_for (path : string) : list Component :=
  if (path === "/document-upload") || (path === "/") || (path === "/loan-status")
  then []
  else [CameraPreview].

Definition App_mounts (matchPath : string -> string -> bool)
  (client : ObjRef) (path : string) : list Mounted :=
  [mkMounted Toaster [QueryClientProvider client; TooltipProvider];
   mkMounted Sonner [QueryClientProvider client; TooltipProvider]]
  ++ map (fun c => mkMounted c (provider_stack client))
         (page_for matchPath path ++ overlay_for path).

(** The five static entries of the table of [App], lines 45-49, and its
    catch-all entry, line 51. *)
Definition static_routes : list RouteT :=
  [Route "/" (Leaf Index);
   Route "/login" (Leaf Login);
   Route "/questionnaire" (Leaf Questionnaire);
   Route "/document-upload" (Leaf DocumentUpload);
   Route "/loan-status" (Leaf LoanStatus)].

Definition catch_all_route : RouteT := Route "*" (Leaf NotFound).

(** The pages whose paths the overlay selector excludes. *)
Definition pages_without_overlay : list Component :=
  [Index; DocumentUpload; LoanStatus].

(** [nest ps inner]: the providers [ps], each the only child of the one
    before it, outermost first, around the elements [inner]. *)
Fixpoint nest (ps : list Provider) (inner : list Element) : list Element :=
  match ps with
  | [] => inner
  | p :: ps' => [Wrap p (nest ps' inner)]
  end.

(** A node of an element tree is named by its address: the indices of the
    children to go through from the root. *)
Definition Address : Type := list nat.

Fixpoint subtree_at (a : Address) (e : Element) : option Element :=
  match a with
  | [] => Some e
  | i :: a' =>
      match e with
      | Wrap _ children =>
          match nth_error children i with
          | Some child => subtree_at a' child
          | None => None
          end
      | _ => None
      end
  end.

(** As [sites], with each enclosing provider named by the address of its
    node: two nodes are inside the same provider node, and not inside two
    providers of one kind, when the addresses agree.  [here] is the address
    of [e]. *)
Fixpoint located_sites (here : Address) (outer : list (Address * Provider))
  (e : Element) : list (Element * list (Address * Provider)) :=
  match e with
  | Wrap p children =>
      (fix each (i : nat) (es : list Element)
         : list (Element * list (Address * Provider)) :=
         match es with
         | [] => []
         | e' :: es' =>
             located_sites (here ++ [i]) (outer ++ [(here, p)]) e'
             ++ each (S i) es'
         end) 0 children
  | _ => [(e, outer)]
  end.

(** The provider nodes of [App], by address, outermost first. *)
Definition provider_nodes (client : ObjRef) : list (Address * Provider) :=
  [([], QueryClientProvider client);
   ([0], TooltipProvider);
   ([0; 2], BrowserRouter);
   ([0; 2; 0], AuthProvider);
   ([0; 2; 0; 0], LoanProvider)].


(** ** Proof steps *)

(** A static pattern matched ([H]): the page is in the table, and the path
    is not one that no static pattern matches. *)
Ltac matched_route H :=
  split; [unfold pages; simpl; auto 10|];
  split; [reflexivity|];
  let Hnone := fresh "Hnone" in
  intros Hnone; rewrite Hnone in H by (unfold static_paths; simpl; auto 10);
  discriminate H.

(** Decide every test of a static pattern against a static path, given
    [exact]: on the static paths the matcher [m] is equality. *)
Ltac decide_static_matches m exact :=
  repeat match goal with
  | |- context [m ?a ?b] =>
      rewrite (exact a b) by (unfold static_paths; simpl; auto 10);
      simpl
  end.

(** * Properties *)

(** ** Strings and the exclusion set *)

Lemma strict_eq_true (a b : string) : (a === b) = true <-> a = b.
Proof. apply String.eqb_eq. Qed.

Lemma strict_eq_false (a b : string) : (a === b) = false <-> a <> b.
Proof. apply String.eqb_neq. Qed.

Lemma strict_eq_refl (a : string) : (a === a) = true.
Proof. apply String.eqb_refl. Qed.

(** The three comparisons of lines 26-28 test membership in the set. *)
Lemma excluded_iff (p : string) :
  (p === "/document-upload") || (p === "/") || (p === "/loan-status") = true
  <-> In p exclusion_set.
Proof.
  unfold exclusion_set; simpl.
  rewrite !orb_true_iff, !strict_eq_true.
  intuition congruence.
Qed.

Lemma not_excluded_iff (p : string) :
  (p === "/document-upload") || (p === "/") || (p === "/loan-status") = false
  <-> ~ In p exclusion_set.
Proof.
  rewrite <- excluded_iff.
  destruct ((p === "/document-upload") || (p === "/") || (p === "/loan-status"));
    split; congruence.
Qed.

Lemma exclusion_set_dec (p : string) :
  {In p exclusion_set} + {~ In p exclusion_set}.
Proof. apply (in_dec string_dec). Qed.

(** ** The overlay selector *)

(** Inside a router the selector returns, and leaves the world alone. *)
Lemma ConditionalCameraPreview_in_router outer location w :
  ConditionalCameraPreview (in_router outer location) w =
  (Ok (if (pathname location === "/document-upload")
          || (pathname location === "/")
          || (pathname location === "/loan-status")
       then hidden else shown), w).
Proof.
  unfold ConditionalCameraPreview, bind, useLocation; simpl.
  destruct ((pathname location === "/document-upload")
            || (pathname location === "/")
            || (pathname location === "/loan-status")); reflexivity.
Qed.

(** Whatever the context, the selector changes nothing in the world. *)
Lemma ConditionalCameraPreview_world ctx w :
  snd (ConditionalCameraPreview ctx w) = w.
Proof.
  unfold ConditionalCameraPreview, bind, useLocation.
  destruct (router_location ctx) as [location|]; simpl; [|reflexivity].
  destruct ((pathname location === "/document-upload")
            || (pathname location === "/")
            || (pathname location === "/loan-status")); reflexivity.
Qed.

(** C1: on each of the three excluded paths the selector returns null:
    the overlay is hidden. *)
Theorem overlay_hidden_on_excluded_paths :
  forall (outer : list Provider) (location : Location) (w : World),
    In (pathname location) exclusion_set ->
    ConditionalCameraPreview (in_router outer location) w = (Ok hidden, w).
Proof.
  intros outer location w Hin.
  rewrite ConditionalCameraPreview_in_router.
  apply excluded_iff in Hin. rewrite Hin. reflexivity.
Qed.

Lemma overlay_hidden_on_excluded_paths_witness :
  ConditionalCameraPreview
    (in_router (provider_stack 0) (mkLocation "/loan-status" "" "" None "default"))
    (mkWorld [QueryClientObj] (mkLocation "/loan-status" "" "" None "default"))
  = (Ok hidden,
     mkWorld [QueryClientObj] (mkLocation "/loan-status" "" "" None "default")).
Proof.
  apply (overlay_hidden_on_excluded_paths (provider_stack 0)
           (mkLocation "/loan-status" "" "" None "default")).
  simpl. right. right. left. reflexivity.
Defined.

(** C2: on every path outside the exclusion set, "/login", "/questionnaire"
    and unmatched paths such as "/xyz" among them, the selector returns the
    camera overlay: the overlay is shown. *)
Theorem overlay_shown_on_other_paths :
  forall (outer : list Provider) (location : Location) (w : World),
    ~ In (pathname location) exclusion_set ->
    ConditionalCameraPreview (in_router outer location) w = (Ok shown, w).
Proof.
  intros outer location w Hout.
  rewrite ConditionalCameraPreview_in_router.
  apply not_excluded_iff in Hout. rewrite Hout. reflexivity.
Qed.

Lemma overlay_shown_on_other_paths_witness :
  ConditionalCameraPreview
    (in_router (provider_stack 0) (mkLocation "/xyz" "" "" None "default"))
    (mkWorld [QueryClientObj] (mkLocation "/xyz" "" "" None "default"))
  = (Ok shown, mkWorld [QueryClientObj] (mkLocation "/xyz" "" "" None "default")).
Proof.
  apply (overlay_shown_on_other_paths (provider_stack 0)
           (mkLocation "/xyz" "" "" None "default")).
  simpl. intros [H|[H|[H|[]]]]; discriminate H.
Defined.

Example overlay_shown_on_login outer w s h st k :
  ConditionalCameraPreview (in_router outer (mkLocation "/login" s h st k)) w
  = (Ok shown, w).
Proof. reflexivity. Qed.

Example overlay_shown_on_questionnaire outer w s h st k :
  ConditionalCameraPreview (in_router outer (mkLocation "/questionnaire" s h st k)) w
  = (Ok shown, w).
Proof. reflexivity. Qed.

(** C4: the selector is total on path strings: for every path, the empty
    one included, it returns a decision and throws nothing, and a path
    outside the exclusion set gets the overlay. *)
Theorem overlay_selector_total :
  forall (p sr h k : string) (st : option string)
         (outer : list Provider) (w : World),
    (exists d : option Element,
        ConditionalCameraPreview (in_router outer (mkLocation p sr h st k)) w
        = (Ok d, w)
        /\ (d = hidden \/ d = shown)
        /\ (~ In p exclusion_set -> d = shown))
    /\ ConditionalCameraPreview (in_router outer (mkLocation "" sr h st k)) w
       = (Ok shown, w).
Proof.
  intros p sr h k st outer w. split; [|reflexivity].
  rewrite ConditionalCameraPreview_in_router; simpl.
  destruct (exclusion_set_dec p) as [Hin|Hout].
  - exists hidden. apply excluded_iff in Hin. rewrite Hin.
    split; [reflexivity|]. split; [now left|].
    intros Hout. exfalso. apply Hout. now apply excluded_iff.
  - exists shown. apply not_excluded_iff in Hout. rewrite Hout.
    split; [reflexivity|]. split; [now right|reflexivity].
Qed.

(** C9: the selector is a function of the current path alone: two
    evaluations at locations with the same path, under whatever providers
    and in whatever worlds, decide the same, and each leaves its world as it
    found it. *)
Theorem overlay_selector_pure :
  forall (outer1 outer2 : list Provider) (l1 l2 : Location) (w1 w2 : World),
    pathname l1 = pathname l2 ->
    fst (ConditionalCameraPreview (in_router outer1 l1) w1)
    = fst (ConditionalCameraPreview (in_router outer2 l2) w2)
    /\ snd (ConditionalCameraPreview (in_router outer1 l1) w1) = w1
    /\ snd (ConditionalCameraPreview (in_router outer2 l2) w2) = w2.
Proof.
  intros outer1 outer2 l1 l2 w1 w2 Hp.
  rewrite !ConditionalCameraPreview_world.
  rewrite !ConditionalCameraPreview_in_router, Hp. simpl. auto.
Qed.

Lemma overlay_selector_pure_witness :
  fst (ConditionalCameraPreview
         (in_router [] (mkLocation "/login" "" "" None "a"))
         (mkWorld [] (mkLocation "/login" "" "" None "a")))
  = fst (ConditionalCameraPreview
           (in_router (provider_stack 0) (mkLocation "/login" "?x=1" "#top" None "b"))
           (mkWorld [QueryClientObj] (mkLocation "/" "" "" None "c")))
  /\ snd (ConditionalCameraPreview
            (in_router [] (mkLocation "/login" "" "" None "a"))
            (mkWorld [] (mkLocation "/login" "" "" None "a")))
     = mkWorld [] (mkLocation "/login" "" "" None "a")
  /\ snd (ConditionalCameraPreview
            (in_router (provider_stack 0) (mkLocation "/login" "?x=1" "#top" None "b"))
            (mkWorld [QueryClientObj] (mkLocation "/" "" "" None "c")))
     = mkWorld [QueryClientObj] (mkLocation "/" "" "" None "c").
Proof.
  apply (overlay_selector_pure [] (provider_stack 0)
           (mkLocation "/login" "" "" None "a")
           (mkLocation "/login" "?x=1" "#top" None "b")).
  reflexivity.
Defined.

(** C10: the decision reads the pathname only: two locations with the same
    pathname and any query strings, hash fragments, states and keys get the
    same decision. *)
Theorem overlay_decision_ignores_search_and_hash :
  forall (p : string) (search1 hash1 key1 search2 hash2 key2 : string)
         (state1 state2 : option string) (outer : list Provider) (w : World),
    ConditionalCameraPreview
      (in_router outer (mkLocation p search1 hash1 state1 key1)) w
    = ConditionalCameraPreview
        (in_router outer (mkLocation p search2 hash2 state2 key2)) w.
Proof.
  intros. rewrite !ConditionalCameraPreview_in_router. reflexivity.
Qed.

(** ** Exact comparison: trailing slashes and letter case *)

Lemma lower_app (s t : string) :
  lower (s ++ t)%string = (lower s ++ lower t)%string.
Proof.
  induction s as [|c s IH]; simpl; [reflexivity|].
  now rewrite IH.
Qed.

Lemma strip_slashes_snoc (s : string) :
  strip_slashes (s ++ "/")%string = strip_slashes s.
Proof.
  induction s as [|c s IH]; simpl; [reflexivity|].
  now rewrite IH.
Qed.

Lemma canonical_snoc (s : string) :
  canonical (s ++ "/")%string = canonical s.
Proof.
  unfold canonical. rewrite lower_app. simpl lower.
  apply strip_slashes_snoc.
Qed.

(** Variants have one canonical form. *)
Lemma variant_canonical (s t : string) :
  slash_case_variant s t -> canonical s = canonical t.
Proof.
  induction 1 as [s|s|s t Hcase|s t u _ IHst _ IHtu].
  - symmetry. apply canonical_snoc.
  - apply canonical_snoc.
  - unfold canonical. now rewrite Hcase.
  - congruence.
Qed.

(** The excluded paths have three different canonical forms. *)
Lemma canonical_exclusion_set (e e' : string) :
  In e exclusion_set -> In e' exclusion_set ->
  canonical e = canonical e' -> e = e'.
Proof.
  unfold exclusion_set; simpl.
  intros [<-|[<-|[<-|[]]]] [<-|[<-|[<-|[]]]]; vm_compute;
    intros H; try reflexivity; discriminate H.
Qed.

(** A variant of an excluded path, other than the path itself, is not
    excluded. *)
Lemma variant_not_excluded (e p : string) :
  In e exclusion_set -> slash_case_variant e p -> p <> e ->
  ~ In p exclusion_set.
Proof.
  intros He Hv Hne Hp. apply Hne.
  apply canonical_exclusion_set; trivial.
  symmetry. now apply variant_canonical.
Qed.

(** C3: the exclusion test is exact equality of whole paths: a path that
    differs from an excluded one by trailing slashes or by letter case only
    is not excluded, and gets the overlay. *)
Theorem overlay_shown_on_slash_and_case_variants :
  forall (e : string) (outer : list Provider) (location : Location) (w : World),
    In e exclusion_set ->
    slash_case_variant e (pathname location) ->
    pathname location <> e ->
    ConditionalCameraPreview (in_router outer location) w = (Ok shown, w).
Proof.
  intros e outer location w He Hv Hne.
  rewrite ConditionalCameraPreview_in_router.
  assert (Hout : ~ In (pathname location) exclusion_set)
    by (eapply variant_not_excluded; eassumption).
  apply not_excluded_iff in Hout. rewrite Hout. reflexivity.
Qed.

Lemma overlay_shown_on_slash_and_case_variants_witness :
  ConditionalCameraPreview
    (in_router (provider_stack 0) (mkLocation "/LOAN-status/" "" "" None "default"))
    (mkWorld [QueryClientObj] (mkLocation "/LOAN-status/" "" "" None "default"))
  = (Ok shown,
     mkWorld [QueryClientObj] (mkLocation "/LOAN-status/" "" "" None "default")).
Proof.
  apply (overlay_shown_on_slash_and_case_variants "/loan-status"
           (provider_stack 0)
           (mkLocation "/LOAN-status/" "" "" None "default")).
  - simpl. right. right. left. reflexivity.
  - simpl. apply variant_trans with (t := "/LOAN-status").
    + apply variant_case. reflexivity.
    + apply (variant_add_slash "/LOAN-status").
  - simpl. discriminate.
Defined.

Example overlay_shown_on_trailing_slash outer w s h st k :
  ConditionalCameraPreview (in_router outer (mkLocation "/loan-status/" s h st k)) w
  = (Ok shown, w).
Proof. reflexivity. Qed.

Example overlay_shown_on_upper_case outer w s h st k :
  ConditionalCameraPreview (in_router outer (mkLocation "/DOCUMENT-UPLOAD" s h st k)) w
  = (Ok shown, w).
Proof. reflexivity. Qed.

Example overlay_shown_on_empty_variant_of_root outer w s h st k :
  slash_case_variant "/" "" /\
  ConditionalCameraPreview (in_router outer (mkLocation "" s h st k)) w
  = (Ok shown, w).
Proof. split; [apply (variant_drop_slash "")|reflexivity]. Qed.

(** ** Rendering *)

Section RenderFacts.

Variable matchPath : string -> string -> bool.

Lemma render_Leaf fuel ctx c :
  render matchPath fuel ctx (Leaf c) = ret [mount c ctx].
Proof. destruct fuel; reflexivity. Qed.

Lemma render_Wrap fuel ctx p children w :
  render matchPath fuel ctx (Wrap p children) w =
  (ctx' <- enter p ctx ;; render_children matchPath fuel ctx' children) w.
Proof.
  assert (Hgo : forall ctx' es w',
    (fix each (es : list Element) : M (list Mounted) :=
       match es with
       | [] => ret []
       | e' :: es' =>
           ms <- render matchPath fuel ctx' e' ;;
           ms' <- each es' ;;
           ret (ms ++ ms')
       end) es w' = render_children matchPath fuel ctx' es w').
  { intros ctx' es. induction es as [|e es IH]; intros w'; [reflexivity|].
    cbn [render_children]. unfold bind.
    destruct (render matchPath fuel ctx' e w') as [[ms|err] w1]; [|reflexivity].
    rewrite <- IH. reflexivity. }
  destruct fuel; simpl; unfold bind;
    destruct (enter p ctx w) as [[ctx'|err] w1]; try reflexivity;
    rewrite <- Hgo; reflexivity.
Qed.

Lemma render_Routes fuel ctx table w :
  render matchPath fuel ctx (Routes table) w =
  (location <- useLocation ctx ;;
   match select_route matchPath table (pathname location) with
   | Some element => render matchPath fuel ctx element
   | None => ret []
   end) w.
Proof.
  assert (Hpick : forall path rs w',
    (fix pick (rs : list RouteT) : M (list Mounted) :=
       match rs with
       | [] => ret []
       | Route pattern element :: rest =>
           if matchPath pattern path
           then render matchPath fuel ctx element
           else pick rest
       end) rs w' =
    match select_route matchPath rs path with
    | Some element => render matchPath fuel ctx element
    | None => ret []
    end w').
  { intros path rs w'. induction rs as [|[pattern element] rs IH]; [reflexivity|].
    simpl. destruct (matchPath pattern path); [reflexivity|apply IH]. }
  destruct fuel; simpl; unfold bind;
    destruct (useLocation ctx w) as [[location|err] w1]; try reflexivity;
    rewrite <- Hpick; reflexivity.
Qed.

Lemma render_Local fuel ctx f :
  render matchPath (S fuel) ctx (Local f) =
  (r <- body f ctx ;;
   match r with
   | None => ret []
   | Some e' => render matchPath fuel ctx e'
   end).
Proof. reflexivity. Qed.

End RenderFacts.

(** ** Rendering changes nothing in the world *)

Section RenderInvariants.

Variable matchPath : string -> string -> bool.

Lemma enter_world p ctx w : snd (enter p ctx w) = w.
Proof.
  destruct p; try reflexivity.
  simpl. destruct (router_location ctx); reflexivity.
Qed.

Lemma useLocation_world ctx w : snd (useLocation ctx w) = w.
Proof. unfold useLocation. destruct (router_location ctx); reflexivity. Qed.

Lemma body_world f ctx w : snd (body f ctx w) = w.
Proof. destruct f. apply ConditionalCameraPreview_world. Qed.

Lemma select_route_In table path element :
  select_route matchPath table path = Some element ->
  exists pattern, In (Route pattern element) table.
Proof.
  induction table as [|[pattern el] table IH]; simpl; [discriminate|].
  destruct (matchPath pattern path).
  - intros [= <-]. exists pattern. now left.
  - intros H. destruct (IH H) as [pat Hin]. exists pat. now right.
Qed.

(** One level of fuel: if function components keep the world, so does
    every element. *)
Lemma render_world_step fuel :
  (forall ctx f w, snd (render matchPath fuel ctx (Local f) w) = w) ->
  forall e ctx w, snd (render matchPath fuel ctx e w) = w.
Proof.
  intros HLocal e.
  induction e as [c|p children IH|table IH|f] using Element_nested_ind;
    intros ctx w.
  - rewrite render_Leaf. reflexivity.
  - rewrite render_Wrap. unfold bind.
    pose proof (enter_world p ctx w) as Hw.
    destruct (enter p ctx w) as [[ctx'|err] w1]; simpl in Hw; subst w1;
      [|reflexivity].
    clear ctx. revert w.
    induction IH as [|e es He _ IHes]; intros w; [reflexivity|].
    cbn [render_children]. unfold bind.
    specialize (He ctx' w).
    destruct (render matchPath fuel ctx' e w) as [[ms|err] w1];
      simpl in He; subst w1; [|reflexivity].
    specialize (IHes w).
    destruct (render_children matchPath fuel ctx' es w) as [[ms'|err] w1];
      simpl in IHes; subst w1; reflexivity.
  - rewrite render_Routes. unfold bind.
    pose proof (useLocation_world ctx w) as Hw.
    destruct (useLocation ctx w) as [[location|err] w1]; simpl in Hw; subst w1;
      [|reflexivity].
    destruct (select_route matchPath table (pathname location)) as [element|] eqn:Hsel;
      [|reflexivity].
    destruct (select_route_In _ _ _ Hsel) as [pattern Hin].
    rewrite Forall_forall in IH. apply (IH _ Hin).
  - apply HLocal.
Qed.

(** No element of this unit constructs an object or navigates: a render,
    finished or thrown, leaves the world as it found it. *)
Lemma render_world fuel : forall ctx e w, snd (render matchPath fuel ctx e w) = w.
Proof.
  induction fuel as [|fuel IHfuel]; intros ctx e w; revert e ctx w;
    apply render_world_step; intros ctx f w.
  - reflexivity.
  - rewrite render_Local. unfold bind.
    pose proof (body_world f ctx w) as Hw.
    destruct (body f ctx w) as [[[e'|]|err] w1]; simpl in Hw; subst w1;
      try reflexivity.
    apply IHfuel.
Qed.

(** One render of the root, at whatever location the browser is. *)
Lemma render_App_eq fuel qc w :
  render matchPath (S fuel) root_ctx (App qc) w =
  (Ok (App_mounts matchPath qc (pathname (window_location w))), w).
Proof.
  unfold App_mounts, page_for, overlay_for, App, route_table.
  simpl. unfold ConditionalCameraPreview, useLocation, bind, ret; simpl.
  repeat match goal with
  | |- context [if matchPath ?a ?b then _ else _] => destruct (matchPath a b)
  end;
  match goal with
  | |- context [if ?c then _ else _] => destruct c
  end; simpl; rewrite ?render_Leaf; reflexivity.
Qed.

End RenderInvariants.

(** ** The provider stack *)

(** The sites inside nested providers are the sites of what they enclose,
    under the providers added in order. *)
Lemma sites_children outer p children :
  sites outer (Wrap p children) = flat_map (sites (outer ++ [p])) children.
Proof.
  simpl. induction children as [|e es IH]; [reflexivity|].
  simpl. now rewrite IH.
Qed.

Lemma sites_nest ps : forall outer inner,
  flat_map (sites outer) (nest ps inner) = flat_map (sites (outer ++ ps)) inner.
Proof.
  induction ps as [|p ps IH]; intros outer inner.
  - simpl. now rewrite app_nil_r.
  - cbn [nest flat_map]. rewrite app_nil_r, sites_children, IH.
    now rewrite <- app_assoc.
Qed.

(** C7: [App] is one chain of provider nodes, in the order data-cache
    client, tooltip, router, authentication, loan workflow, outermost first:
    the tooltip provider is the only child of the client provider, the
    router comes after the two toasters inside the tooltip provider, and from
    the router inwards each provider is the only child of the one before;
    the route table and the overlay selector are the two children of the
    innermost one.  So both are inside the same five provider nodes (the
    two toasters inside the first two only), and whatever page the table
    dispatches to and the overlay, when shown, are mounted inside the five
    providers, in that order. *)
Theorem provider_stack_wraps_routes_and_overlay :
  forall (matchPath : string -> string -> bool) (fuel : nat)
         (qc : ObjRef) (w : World),
    provider_stack qc =
      [QueryClientProvider qc; TooltipProvider; BrowserRouter;
       AuthProvider; LoanProvider]
    /\ App qc =
         Wrap (QueryClientProvider qc)
           [Wrap TooltipProvider
              (Leaf Toaster :: Leaf Sonner
               :: nest [BrowserRouter; AuthProvider; LoanProvider]
                       [Routes route_table; Local ConditionalCameraPreviewC])]
    /\ subtree_at [0; 2; 0; 0] (App qc) =
         Some (Wrap LoanProvider
                 [Routes route_table; Local ConditionalCameraPreviewC])
    /\ Forall (fun node =>
                 exists children,
                   subtree_at (fst node) (App qc) = Some (Wrap (snd node) children))
              (provider_nodes qc)
    /\ map snd (provider_nodes qc) = provider_stack qc
    /\ located_sites [] [] (App qc) =
         [(Leaf Toaster, [([], QueryClientProvider qc); ([0], TooltipProvider)]);
          (Leaf Sonner, [([], QueryClientProvider qc); ([0], TooltipProvider)]);
          (Routes route_table, provider_nodes qc);
          (Local ConditionalCameraPreviewC, provider_nodes qc)]
    /\ sites [] (App qc) =
         [(Leaf Toaster, [QueryClientProvider qc; TooltipProvider]);
          (Leaf Sonner, [QueryClientProvider qc; TooltipProvider]);
          (Routes route_table, provider_stack qc);
          (Local ConditionalCameraPreviewC, provider_stack qc)]
    /\ exists ms : list Mounted,
         render matchPath (S fuel) root_ctx (App qc) w = (Ok ms, w)
         /\ forall m : Mounted,
              In m ms -> is_page m = true \/ is_overlay m = true ->
              under m = provider_stack qc.
Proof.
  intros matchPath fuel qc w.
  split; [reflexivity|]. split; [reflexivity|]. split; [reflexivity|].
  split.
  { unfold provider_nodes. repeat constructor; simpl; eexists; reflexivity. }
  split; [reflexivity|]. split; [reflexivity|]. split; [reflexivity|].
  exists (App_mounts matchPath qc (pathname (window_location w))).
  split; [apply render_App_eq|].
  intros m Hin Hkind. unfold App_mounts in Hin.
  apply in_app_or in Hin. destruct Hin as [Hin|Hin].
  - simpl in Hin. destruct Hin as [<-|[<-|[]]];
      destruct Hkind as [Hk|Hk]; discriminate Hk.
  - apply in_map_iff in Hin. destruct Hin as [c [<- _]]. reflexivity.
Qed.

(** ** The query client *)

Section QueryClient.

Variable matchPath : string -> string -> bool.

Lemma module_eval_eq w :
  module_eval w =
  (Ok {| queryClient := length (heap w) |},
   {| heap := heap w ++ [QueryClientObj]; window_location := window_location w |}).
Proof. reflexivity. Qed.

Lemma last_cons_default {A} (l : list A) (a d : A) : last (a :: l) d = last l a.
Proof.
  revert a d. induction l as [|b l IH]; intros a d; [reflexivity|].
  change (last (a :: b :: l) d) with (last (b :: l) d).
  rewrite (IH b d). symmetry. apply IH.
Qed.

(** Re-rendering after navigations: one output per navigation, each under
    the same client, and a world that differs by the location only. *)
Lemma rerender_eq fuel env navs : forall w,
  rerender matchPath (S fuel) env navs w =
  (Ok (map (fun to => App_mounts matchPath (queryClient env) (pathname to)) navs),
   {| heap := heap w; window_location := last navs (window_location w) |}).
Proof.
  induction navs as [|to rest IH]; intros w.
  - destruct w; reflexivity.
  - cbn [rerender]. unfold bind, render_App.
    rewrite render_App_eq. rewrite IH. unfold ret.
    rewrite last_cons_default. reflexivity.
Qed.


End QueryClient.


(** ** The route table *)

Section Dispatch.

Variable matchPath : string -> string -> bool.

(** First match wins: the selected entry matches, and no entry declared
    before it does. *)
Lemma select_route_first_match table path element :
  select_route matchPath table path = Some element <->
  exists before pattern after,
    table = before ++ Route pattern element :: after
    /\ matchPath pattern path = true
    /\ Forall (fun r => matchPath (route_path r) path = false) before.
Proof.
  split.
  - revert element.
    induction table as [|[pattern el] table IH]; simpl; intros element;
      [discriminate|].
    destruct (matchPath pattern path) eqn:Hm.
    + intros [= <-]. exists [], pattern, table. auto.
    + intros H. destruct (IH _ H) as (before & pat & after & -> & Hpat & Hbefore).
      exists (Route pattern el :: before), pat, after.
      repeat split; trivial. constructor; trivial.
  - intros (before & pattern & after & -> & Hpat & Hbefore).
    induction Hbefore as [|[pat el] before Hr _ IH]; simpl.
    + now rewrite Hpat.
    + simpl in Hr. now rewrite Hr.
Qed.

(** An entry declared after an entry that matches every path is never
    selected: the table behaves as if it ended there. *)
Lemma select_route_after_catch_all before pattern element after path :
  (forall p, matchPath pattern p = true) ->
  select_route matchPath (before ++ Route pattern element :: after) path
  = select_route matchPath (before ++ [Route pattern element]) path.
Proof.
  intros Hall.
  induction before as [|[pat el] before IH]; simpl.
  - now rewrite Hall.
  - destruct (matchPath pat path); [reflexivity|apply IH].
Qed.

(** What the theorems ask of the router's matching: the pattern "*" matches
    every path, and on the five static paths a static pattern matches the
    path equal to it and no other. *)
Hypothesis catch_all : forall path, matchPath "*" path = true.
Hypothesis static_exact :
  forall pattern path,
    In pattern static_paths -> In path static_paths ->
    matchPath pattern path = (pattern === path).

Lemma page_for_total path :
  exists page,
    In page pages
    /\ page_for matchPath path = [page]
    /\ ((forall pattern, In pattern static_paths -> matchPath pattern path = false) ->
        page = NotFound).
Proof.
  unfold page_for, route_table. simpl.
  destruct (matchPath "/" path) eqn:H1;
    [exists Index; matched_route H1|].
  destruct (matchPath "/login" path) eqn:H2;
    [exists Login; matched_route H2|].
  destruct (matchPath "/questionnaire" path) eqn:H3;
    [exists Questionnaire; matched_route H3|].
  destruct (matchPath "/document-upload" path) eqn:H4;
    [exists DocumentUpload; matched_route H4|].
  destruct (matchPath "/loan-status" path) eqn:H5;
    [exists LoanStatus; matched_route H5|].
  rewrite catch_all. exists NotFound.
  split; [unfold pages; simpl; auto 10|]. split; reflexivity.
Qed.

Lemma page_for_static :
  map (page_for matchPath) static_paths =
  [[Index]; [Login]; [Questionnaire]; [DocumentUpload]; [LoanStatus]].
Proof.
  unfold page_for, route_table, static_paths. simpl.
  decide_static_matches matchPath static_exact.
  reflexivity.
Qed.

Lemma filter_is_page_App_mounts qc path :
  filter is_page (App_mounts matchPath qc path) =
  map (fun c => mkMounted c (provider_stack qc)) (page_for matchPath path).
Proof.
  unfold App_mounts, overlay_for.
  destruct (page_for_total path) as (page & Hpage & -> & _).
  unfold pages in Hpage. simpl in Hpage.
  destruct Hpage as [<-|[<-|[<-|[<-|[<-|[<-|[]]]]]]];
    destruct ((path === "/document-upload") || (path === "/") || (path === "/loan-status"));
    reflexivity.
Qed.

(** C5: the route table sends every path to exactly one page: the five
    static paths each to their page, every path that none of the five
    static patterns matches to the not-found page; the catch-all entry is
    the last of the table; and a render at any location finishes, with that
    one page mounted and the world, its location included, as it was. *)
Theorem route_table_dispatches_to_one_page :
  (exists statics,
      route_table = statics ++ [Route "*" (Leaf NotFound)]
      /\ map route_path statics = static_paths)
  /\ map (page_for matchPath) static_paths =
       [[Index]; [Login]; [Questionnaire]; [DocumentUpload]; [LoanStatus]]
  /\ (forall path : string,
        exists page : Component,
          In page pages
          /\ page_for matchPath path = [page]
          /\ ((forall pattern, In pattern static_paths ->
                               matchPath pattern path = false) ->
              page = NotFound))
  /\ (forall (fuel : nat) (qc : ObjRef) (w : World),
        render matchPath (S fuel) root_ctx (App qc) w =
          (Ok (App_mounts matchPath qc (pathname (window_location w))), w)
        /\ filter is_page (App_mounts matchPath qc (pathname (window_location w)))
           = map (fun c => mkMounted c (provider_stack qc))
                 (page_for matchPath (pathname (window_location w)))).
Proof.
  split.
  { exists [Route "/" (Leaf Index); Route "/login" (Leaf Login);
            Route "/questionnaire" (Leaf Questionnaire);
            Route "/document-upload" (Leaf DocumentUpload);
            Route "/loan-status" (Leaf LoanStatus)].
    split; reflexivity. }
  split; [apply page_for_static|].
  split; [apply page_for_total|].
  intros fuel qc w. split.
  - apply render_App_eq.
  - apply filter_is_page_App_mounts.
Qed.

(** C6: at "/" the root renders the landing page and no overlay; at
    "/questionnaire" it renders the questionnaire page and the overlay. *)
Theorem landing_without_overlay_questionnaire_with_overlay :
  forall (fuel : nat) (qc : ObjRef) (objects : list Obj)
         (sr h k : string) (st : option string),
    render matchPath (S fuel) root_ctx (App qc)
      (mkWorld objects (mkLocation "/" sr h st k))
    = (Ok [mkMounted Toaster [QueryClientProvider qc; TooltipProvider];
           mkMounted Sonner [QueryClientProvider qc; TooltipProvider];
           mkMounted Index (provider_stack qc)],
       mkWorld objects (mkLocation "/" sr h st k))
    /\ render matchPath (S fuel) root_ctx (App qc)
         (mkWorld objects (mkLocation "/questionnaire" sr h st k))
       = (Ok [mkMounted Toaster [QueryClientProvider qc; TooltipProvider];
              mkMounted Sonner [QueryClientProvider qc; TooltipProvider];
              mkMounted Questionnaire (provider_stack qc);
              mkMounted CameraPreview (provider_stack qc)],
          mkWorld objects (mkLocation "/questionnaire" sr h st k)).
Proof.
  intros fuel qc objects sr h k st.
  rewrite !render_App_eq.
  unfold App_mounts, page_for, overlay_for, route_table. simpl.
  decide_static_matches matchPath static_exact.
  split; reflexivity.
Qed.

End Dispatch.

(** The two matchers meet the hypotheses. *)
Lemma strict_matchPath_catch_all path : strict_matchPath "*" path = true.
Proof. reflexivity. Qed.

Lemma strict_matchPath_static pattern path :
  In pattern static_paths -> In path static_paths ->
  strict_matchPath pattern path = (pattern === path).
Proof.
  unfold static_paths; simpl.
  intros [<-|[<-|[<-|[<-|[<-|[]]]]]] [<-|[<-|[<-|[<-|[<-|[]]]]]]; reflexivity.
Qed.

Lemma lenient_matchPath_catch_all path : lenient_matchPath "*" path = true.
Proof. reflexivity. Qed.

Lemma lenient_matchPath_static pattern path :
  In pattern static_paths -> In path static_paths ->
  lenient_matchPath pattern path = (pattern === path).
Proof.
  unfold static_paths; simpl.
  intros [<-|[<-|[<-|[<-|[<-|[]]]]]] [<-|[<-|[<-|[<-|[<-|[]]]]]]; reflexivity.
Qed.

Lemma route_table_dispatches_to_one_page_witness :
  page_for strict_matchPath "/unknown-path" = [NotFound]
  /\ page_for strict_matchPath "/login" = [Login].
Proof.
  pose proof (route_table_dispatches_to_one_page strict_matchPath
                strict_matchPath_catch_all strict_matchPath_static)
    as (_ & _ & Hpage & _).
  split.
  - destruct (Hpage "/unknown-path") as (page & _ & -> & Hnf).
    rewrite Hnf; [reflexivity|].
    unfold static_paths; simpl.
    intros pattern [<-|[<-|[<-|[<-|[<-|[]]]]]]; reflexivity.
  - reflexivity.
Defined.

Lemma landing_without_overlay_questionnaire_with_overlay_witness :
  render lenient_matchPath 1 root_ctx (App 0)
    (mkWorld [QueryClientObj] (mkLocation "/" "" "" None "default"))
  = (Ok [mkMounted Toaster [QueryClientProvider 0; TooltipProvider];
         mkMounted Sonner [QueryClientProvider 0; TooltipProvider];
         mkMounted Index (provider_stack 0)],
     mkWorld [QueryClientObj] (mkLocation "/" "" "" None "default"))
  /\ render lenient_matchPath 1 root_ctx (App 0)
       (mkWorld [QueryClientObj] (mkLocation "/questionnaire" "" "" None "default"))
     = (Ok [mkMounted Toaster [QueryClientProvider 0; TooltipProvider];
            mkMounted Sonner [QueryClientProvider 0; TooltipProvider];
            mkMounted Questionnaire (provider_stack 0);
            mkMounted CameraPreview (provider_stack 0)],
        mkWorld [QueryClientObj] (mkLocation "/questionnaire" "" "" None "default")).
Proof.
  apply (landing_without_overlay_questionnaire_with_overlay lenient_matchPath
           lenient_matchPath_static 0 0 [QueryClientObj] "" "" "default" None).
Defined.

(** ** Concrete runs *)

(** Outside a router the selector throws: the router must be above it, as
    [App] has it. *)
Example selector_outside_router w :
  ConditionalCameraPreview root_ctx w =
  (Throw (InvariantError
     "useLocation() may be used only in the context of a <Router> component."),
   w).
Proof. reflexivity. Qed.

(** The selector is one function component deep: one unit of fuel is
    needed, and enough. *)
Example render_App_without_fuel qc objects :
  render strict_matchPath 0 root_ctx (App qc)
    (mkWorld objects (mkLocation "/login" "" "" None "default"))
  = (Throw OutOfFuel, mkWorld objects (mkLocation "/login" "" "" None "default")).
Proof. reflexivity. Qed.

Example render_App_unknown_path qc objects :
  render strict_matchPath 1 root_ctx (App qc)
    (mkWorld objects (mkLocation "/unknown-path" "" "" None "default"))
  = (Ok [mkMounted Toaster [QueryClientProvider qc; TooltipProvider];
         mkMounted Sonner [QueryClientProvider qc; TooltipProvider];
         mkMounted NotFound (provider_stack qc);
         mkMounted CameraPreview (provider_stack qc)],
     mkWorld objects (mkLocation "/unknown-path" "" "" None "default")).
Proof. reflexivity. Qed.

(** Under a matcher that ignores trailing slashes the table still finds
    the loan-status page at "/loan-status/", while the selector, which
    compares exactly, shows the overlay there. *)
Example render_App_trailing_slash qc objects :
  render lenient_matchPath 1 root_ctx (App qc)
    (mkWorld objects (mkLocation "/loan-status/" "" "" None "default"))
  = (Ok [mkMounted Toaster [QueryClientProvider qc; TooltipProvider];
         mkMounted Sonner [QueryClientProvider qc; TooltipProvider];
         mkMounted LoanStatus (provider_stack qc);
         mkMounted CameraPreview (provider_stack qc)],
     mkWorld objects (mkLocation "/loan-status/" "" "" None "default")).
Proof. reflexivity. Qed.

(** Three navigations: four renders, one client. *)
Example run_app_three_navigations :
  run_app strict_matchPath 1
    [mkLocation "/login" "" "" None "a";
     mkLocation "/questionnaire" "?step=2" "" None "b";
     mkLocation "/loan-status" "" "#top" None "c"]
    (mkWorld [] (mkLocation "/" "" "" None "default"))
  = (Ok [App_mounts strict_matchPath 0 "/";
         App_mounts strict_matchPath 0 "/login";
         App_mounts strict_matchPath 0 "/questionnaire";
         App_mounts strict_matchPath 0 "/loan-status"],
     mkWorld [QueryClientObj] (mkLocation "/loan-status" "" "#top" None "c")).
Proof. reflexivity. Qed.

(** * Further properties of [App.tsx] *)

(** ** The shape of every render *)

Section AnyMatcher.

Variable matchPath : string -> string -> bool.

(** Whatever the matcher answers, the table yields at most one page, and
    it is a page of the table. *)
Lemma page_for_shape path :
  page_for matchPath path = []
  \/ exists page, In page pages /\ page_for matchPath path = [page].
Proof.
  unfold page_for, route_table, pages. simpl.
  repeat match goal with
  | |- context [if matchPath ?a ?b then _ else _] => destruct (matchPath a b)
  end;
  first [ now left | right; eexists; split; [|reflexivity]; simpl; auto 10 ].
Qed.

Lemma page_is_not_overlay page : In page pages -> page <> CameraPreview.
Proof.
  unfold pages; simpl.
  intros [<-|[<-|[<-|[<-|[<-|[<-|[]]]]]]]; discriminate.
Qed.

Lemma overlay_for_shape path :
  (In path exclusion_set /\ overlay_for path = [])
  \/ (~ In path exclusion_set /\ overlay_for path = [CameraPreview]).
Proof.
  unfold overlay_for.
  destruct ((path === "/document-upload") || (path === "/") || (path === "/loan-status"))
    eqn:Hx.
  - left. split; [now apply excluded_iff|reflexivity].
  - right. split; [now apply not_excluded_iff|reflexivity].
Qed.

End AnyMatcher.

(** X1: whatever the router's matching answers and wherever the browser
    is, one render of [App] finishes and changes nothing in the world; it
    mounts the two toasters under the query-client and tooltip providers
    only, then at most one page, a page of the table, then the overlay or
    nothing, both under the five providers. *)
Theorem App_render_shape :
  forall (matchPath : string -> string -> bool) (fuel : nat)
         (qc : ObjRef) (w : World),
    exists page_part overlay_part : list Component,
      render matchPath (S fuel) root_ctx (App qc) w =
        (Ok (mkMounted Toaster [QueryClientProvider qc; TooltipProvider]
             :: mkMounted Sonner [QueryClientProvider qc; TooltipProvider]
             :: map (fun c => mkMounted c (provider_stack qc))
                    (page_part ++ overlay_part)), w)
      /\ length page_part <= 1
      /\ (forall c, In c page_part -> In c pages)
      /\ (overlay_part = [] \/ overlay_part = [CameraPreview]).
Proof.
  intros matchPath fuel qc w.
  exists (page_for matchPath (pathname (window_location w))),
         (overlay_for (pathname (window_location w))).
  split; [apply render_App_eq|].
  split; [|split].
  - destruct (page_for_shape matchPath (pathname (window_location w)))
      as [->|(page & _ & ->)]; simpl; auto.
  - intros c Hc.
    destruct (page_for_shape matchPath (pathname (window_location w)))
      as [Hnil|(page & Hpage & Heq)]; rewrite ?Hnil, ?Heq in Hc.
    + destruct Hc.
    + destruct Hc as [<-|[]]. exact Hpage.
  - destruct (overlay_for_shape (pathname (window_location w)))
      as [[_ ->]|[_ ->]]; auto.
Qed.

(** X2: in a render of [App] the overlay is mounted exactly when the
    browser's pathname is outside the exclusion set, whatever the router's
    matching answers: the page the table picks has no part in it. *)
Theorem App_overlay_iff_not_excluded :
  forall (matchPath : string -> string -> bool) (fuel : nat)
         (qc : ObjRef) (w : World),
    exists ms : list Mounted,
      render matchPath (S fuel) root_ctx (App qc) w = (Ok ms, w)
      /\ ((exists m, In m ms /\ component m = CameraPreview)
          <-> ~ In (pathname (window_location w)) exclusion_set).
Proof.
  intros matchPath fuel qc w.
  exists (App_mounts matchPath qc (pathname (window_location w))).
  split; [apply render_App_eq|].
  unfold App_mounts.
  destruct (overlay_for_shape (pathname (window_location w)))
    as [[Hin ->]|[Hout ->]].
  - split; [|intros Hout; contradiction].
    intros (m & Hm & Hc). exfalso.
    rewrite app_nil_r in Hm. apply in_app_or in Hm. destruct Hm as [Hm|Hm].
    + simpl in Hm. destruct Hm as [<-|[<-|[]]]; discriminate Hc.
    + apply in_map_iff in Hm. destruct Hm as (c & <- & Hcin). simpl in Hc. subst c.
      destruct (page_for_shape matchPath (pathname (window_location w)))
        as [Hnil|(page & Hpage & Heq)]; rewrite ?Hnil, ?Heq in Hcin.
      * destruct Hcin.
      * destruct Hcin as [->|[]]. now apply page_is_not_overlay in Hpage.
  - split; [intros _; exact Hout|]. intros _.
    exists (mkMounted CameraPreview (provider_stack qc)). split; [|reflexivity].
    apply in_or_app. right. apply in_map_iff. exists CameraPreview.
    split; [reflexivity|]. apply in_or_app. right. now left.
Qed.

(** X3: [App] brings its own router: rendered below another router it
    throws react-router's invariant, at any fuel, and mounts nothing. *)
Theorem App_inside_a_router_throws :
  forall (matchPath : string -> string -> bool) (fuel : nat)
         (outer : list Provider) (location : Location)
         (qc : ObjRef) (w : World),
    exists message : string,
      render matchPath fuel (in_router outer location) (App qc) w
      = (Throw (InvariantError message), w).
Proof.
  intros matchPath fuel outer location qc w.
  eexists. destruct fuel; reflexivity.
Qed.

(** ** Re-rendering *)

(** X4: what a running application shows depends on the current location
    only: the first render and the render after each navigation each leave
    mounted what one render of [App] at that location leaves mounted,
    whatever was visited before; at the end the browser is where the last
    navigation left it. *)
Theorem run_app_depends_on_location_only :
  forall (matchPath : string -> string -> bool) (fuel : nat)
         (navs : list Location) (w0 : World),
    exists (outs : list (list Mounted)) (w1 : World),
      run_app matchPath (S fuel) navs w0 = (Ok outs, w1)
      /\ window_location w1 = last navs (window_location w0)
      /\ Forall2
           (fun location ms =>
              forall objects : list Obj,
                render matchPath (S fuel) root_ctx (App (length (heap w0)))
                  (mkWorld objects location)
                = (Ok ms, mkWorld objects location))
           (window_location w0 :: navs) outs.
Proof.
  intros matchPath fuel navs w0.
  unfold run_app, bind. rewrite module_eval_eq.
  unfold render_App at 1. rewrite render_App_eq.
  rewrite rerender_eq. unfold ret. cbn [queryClient heap window_location].
  eexists. eexists. split; [reflexivity|]. split; [reflexivity|].
  constructor.
  - intros objects. rewrite render_App_eq. reflexivity.
  - induction navs as [|to rest IH]; cbn [map]; constructor; trivial.
    intros objects. rewrite render_App_eq. reflexivity.
Qed.

(** ** The overlay and the page *)

Section OverlayAndPage.

Variable matchPath : string -> string -> bool.

Hypothesis catch_all : forall path, matchPath "*" path = true.
Hypothesis static_exact :
  forall pattern path,
    In pattern static_paths -> In path static_paths ->
    matchPath pattern path = (pattern === path).

Lemma exclusion_set_static path : In path exclusion_set -> In path static_paths.
Proof.
  unfold exclusion_set, static_paths; simpl.
  intros [<-|[<-|[<-|[]]]]; auto 10.
Qed.

(** An excluded path is matched by its own static pattern. *)
Lemma excluded_path_matched path :
  In path exclusion_set -> matchPath path path = true.
Proof.
  intros Hin. apply exclusion_set_static in Hin.
  rewrite static_exact by assumption. apply strict_eq_refl.
Qed.

(** X5: the not-found page comes with the overlay: at a location that no
    static pattern matches, a render of [App] mounts the two toasters, the
    not-found page and the camera overlay, and nothing else. *)
Theorem not_found_page_shows_overlay :
  forall (fuel : nat) (qc : ObjRef) (w : World),
    (forall pattern, In pattern static_paths ->
                     matchPath pattern (pathname (window_location w)) = false) ->
    render matchPath (S fuel) root_ctx (App qc) w
    = (Ok [mkMounted Toaster [QueryClientProvider qc; TooltipProvider];
           mkMounted Sonner [QueryClientProvider qc; TooltipProvider];
           mkMounted NotFound (provider_stack qc);
           mkMounted CameraPreview (provider_stack qc)], w).
Proof.
  intros fuel qc w Hnone.
  rewrite render_App_eq. unfold App_mounts.
  destruct (page_for_total matchPath catch_all (pathname (window_location w)))
    as (page & _ & -> & Hnf).
  rewrite (Hnf Hnone).
  destruct (overlay_for_shape (pathname (window_location w)))
    as [[Hin _]|[_ ->]]; [|reflexivity].
  exfalso. pose proof (excluded_path_matched _ Hin) as Hm.
  rewrite Hnone in Hm by now apply exclusion_set_static.
  discriminate Hm.
Qed.

(** X6: the overlay is missing on three pages only: when a render of
    [App] mounts no camera overlay, the page it mounts is the landing page,
    the document-upload page or the loan-status page. *)
Theorem overlay_hidden_only_on_three_pages :
  forall (fuel : nat) (qc : ObjRef) (w w' : World) (ms : list Mounted),
    render matchPath (S fuel) root_ctx (App qc) w = (Ok ms, w') ->
    (forall m, In m ms -> component m <> CameraPreview) ->
    exists page,
      In page pages_without_overlay
      /\ In (mkMounted page (provider_stack qc)) ms.
Proof.
  intros fuel qc w w' ms Hrender Hnone.
  rewrite render_App_eq in Hrender. injection Hrender as <- _.
  unfold App_mounts in *.
  destruct (overlay_for_shape (pathname (window_location w)))
    as [[Hin Hov]|[_ Hov]]; rewrite Hov in *.
  - unfold page_for, route_table, pages_without_overlay.
    unfold exclusion_set in Hin. simpl in Hin.
    destruct Hin as [<-|[<-|[<-|[]]]]; simpl;
      decide_static_matches matchPath static_exact;
      eexists; (split; [|right; right; left; reflexivity]); simpl; auto.
  - exfalso.
    apply (Hnone (mkMounted CameraPreview (provider_stack qc))); [|reflexivity].
    apply in_or_app. right. apply in_map_iff. exists CameraPreview.
    split; [reflexivity|]. apply in_or_app. right. now left.
Qed.

End OverlayAndPage.

Lemma not_found_page_shows_overlay_witness :
  render strict_matchPath 1 root_ctx (App 0)
    (mkWorld [QueryClientObj] (mkLocation "/unknown-path" "?a=1" "" None "k"))
  = (Ok [mkMounted Toaster [QueryClientProvider 0; TooltipProvider];
         mkMounted Sonner [QueryClientProvider 0; TooltipProvider];
         mkMounted NotFound (provider_stack 0);
         mkMounted CameraPreview (provider_stack 0)],
     mkWorld [QueryClientObj] (mkLocation "/unknown-path" "?a=1" "" None "k")).
Proof.
  apply (not_found_page_shows_overlay strict_matchPath
           strict_matchPath_catch_all strict_matchPath_static 0 0
           (mkWorld [QueryClientObj] (mkLocation "/unknown-path" "?a=1" "" None "k"))).
  unfold static_paths; simpl.
  intros pattern [<-|[<-|[<-|[<-|[<-|[]]]]]]; reflexivity.
Defined.

Lemma overlay_hidden_only_on_three_pages_witness :
  exists page,
    In page pages_without_overlay
    /\ In (mkMounted page (provider_stack 0))
          [mkMounted Toaster [QueryClientProvider 0; TooltipProvider];
           mkMounted Sonner [QueryClientProvider 0; TooltipProvider];
           mkMounted DocumentUpload (provider_stack 0)].
Proof.
  apply (overlay_hidden_only_on_three_pages lenient_matchPath
           lenient_matchPath_static 0 0
           (mkWorld [QueryClientObj] (mkLocation "/document-upload" "" "" None "k"))
           (mkWorld [QueryClientObj] (mkLocation "/document-upload" "" "" None "k"))).
  - reflexivity.
  - simpl. intros m [<-|[<-|[<-|[]]]]; discriminate.
Defined.

(** ** The order of the static routes *)

Section RouteOrder.

Variable matchPath : string -> string -> bool.

(** Entries that do not match are passed over. *)
Lemma select_route_skip before rest path :
  Forall (fun r => matchPath (route_path r) path = false) before ->
  select_route matchPath (before ++ rest) path = select_route matchPath rest path.
Proof.
  induction 1 as [|[pattern element] before Hr _ IH]; simpl; [reflexivity|].
  simpl in Hr. now rewrite Hr.
Qed.

(** When one entry only of [routes] matches, it is selected wherever it
    stands. *)
Lemma select_route_only_match routes rest path r :
  In r routes ->
  matchPath (route_path r) path = true ->
  (forall r', In r' routes -> matchPath (route_path r') path = true -> r' = r) ->
  select_route matchPath (routes ++ rest) path = Some (route_element r).
Proof.
  intros Hin Hr Honly.
  induction routes as [|[pattern element] routes IH]; [destruct Hin|].
  simpl. destruct (matchPath pattern path) eqn:Hm.
  - rewrite <- (Honly (Route pattern element)); [reflexivity|now left|exact Hm].
  - apply IH.
    + destruct Hin as [<-|Hin]; [|exact Hin].
      simpl in Hr. congruence.
    + intros r' Hr'. apply Honly. now right.
Qed.

(** With at most one matching entry, the order of [routes] is immaterial. *)
Lemma select_route_Permutation routes routes' rest path :
  Permutation routes routes' ->
  (forall r r', In r routes -> In r' routes ->
                matchPath (route_path r) path = true ->
                matchPath (route_path r') path = true -> r = r') ->
  select_route matchPath (routes' ++ rest) path
  = select_route matchPath (routes ++ rest) path.
Proof.
  intros Hperm Honly.
  destruct (Exists_dec (fun r => matchPath (route_path r) path = true) routes)
    as [Hex|Hnone].
  { intros r. apply bool_dec. }
  - apply Exists_exists in Hex. destruct Hex as (r & Hin & Hr).
    rewrite (select_route_only_match routes rest path r); trivial.
    + apply select_route_only_match; trivial.
      * now apply (Permutation_in _ Hperm).
      * intros r' Hin' Hr'. apply Honly; trivial.
        now apply (Permutation_in _ (Permutation_sym Hperm)).
    + intros r' Hin' Hr'. now apply Honly.
  - assert (Hall : Forall (fun r => matchPath (route_path r) path = false) routes).
    { apply Forall_forall. intros r Hin.
      apply not_true_is_false. intros Hr. apply Hnone.
      apply Exists_exists. now exists r. }
    rewrite (select_route_skip routes rest path Hall).
    apply select_route_skip.
    now apply (Permutation_Forall Hperm).
Qed.

(** No path is matched by two static patterns. *)
Hypothesis static_exclusive :
  forall pattern pattern' path,
    In pattern static_paths -> In pattern' static_paths ->
    matchPath pattern path = true -> matchPath pattern' path = true ->
    pattern = pattern'.

Lemma static_routes_paths r : In r static_routes -> In (route_path r) static_paths.
Proof.
  unfold static_routes, static_paths; simpl.
  intros [<-|[<-|[<-|[<-|[<-|[]]]]]]; simpl; auto 10.
Qed.

Lemma static_routes_by_path r r' :
  In r static_routes -> In r' static_routes ->
  route_path r = route_path r' -> r = r'.
Proof.
  unfold static_routes; simpl.
  intros [<-|[<-|[<-|[<-|[<-|[]]]]]] [<-|[<-|[<-|[<-|[<-|[]]]]]]; simpl;
    intros H; try reflexivity; discriminate H.
Qed.

(** X7: the five static routes may be declared in any order: with a matcher
    under which no path is matched by two static patterns, the table with
    the static entries permuted, the catch-all kept last, dispatches every
    path as the table of [App] does. *)
Theorem static_routes_order_immaterial :
  forall (routes : list RouteT) (path : string),
    Permutation static_routes routes ->
    route_table = static_routes ++ [catch_all_route]
    /\ select_route matchPath (routes ++ [catch_all_route]) path
       = select_route matchPath route_table path.
Proof.
  intros routes path Hperm. split; [reflexivity|].
  change route_table with (static_routes ++ [catch_all_route]).
  apply select_route_Permutation; [exact Hperm|].
  intros r r' Hin Hin' Hr Hr'.
  apply static_routes_by_path; trivial.
  apply (static_exclusive _ _ path); trivial; now apply static_routes_paths.
Qed.

End RouteOrder.

Lemma strict_matchPath_exclusive pattern pattern' path :
  In pattern static_paths -> In pattern' static_paths ->
  strict_matchPath pattern path = true -> strict_matchPath pattern' path = true ->
  pattern = pattern'.
Proof.
  unfold static_paths, strict_matchPath. intros Hin Hin'.
  rewrite !orb_true_iff, !strict_eq_true.
  simpl in Hin, Hin'.
  destruct Hin as [<-|[<-|[<-|[<-|[<-|[]]]]]];
    destruct Hin' as [<-|[<-|[<-|[<-|[<-|[]]]]]];
    intros [H|H] [H'|H']; congruence.
Qed.

Lemma static_routes_order_immaterial_witness :
  route_table = static_routes ++ [catch_all_route]
  /\ select_route strict_matchPath (rev static_routes ++ [catch_all_route])
       "/questionnaire"
     = select_route strict_matchPath route_table "/questionnaire".
Proof.
  apply (static_routes_order_immaterial strict_matchPath
           strict_matchPath_exclusive (rev static_routes) "/questionnaire").
  apply Permutation_rev.
Defined.
